(** * Monte Carlo study of the OLS estimator (monte.py)

    A shallow embedding of the three functions of [monte.py]:
    [generate_data], [simple_linear_regression] and
    [monte_carlo_simulation].

    Numbers.  The program computes with binary64 floats.  Two scalar
    models are used.  The first part of the file takes exact rationals
    extended with one absorbing element [NonFinite], which stands for nan
    and the infinities; it carries the properties of shapes, lengths,
    order of trials, position in the random stream and raised errors,
    which do not depend on rounding.  Module [Binary64] gives the
    estimator and the generator over IEEE 754 binary64 numbers, every
    operation rounded to nearest even; it carries every property that
    depends on the arithmetic.

    Arrays.  One-dimensional NumPy arrays are lists; an elementwise
    operation on two arrays follows NumPy's broadcasting rule and raises
    [ValueError] when the shapes do not agree.

    Randomness.  NumPy's process-wide generator is an explicit state that
    every drawing function takes and returns.  The two primitive draws (a
    uniform double in [0, 1) and a standard normal deviate) are parameters
    of the development. *)

From Stdlib Require Import String QArith Qabs ZArith List Bool Lia Lqa.
From Stdlib Require Import Setoid Morphisms.
From Stdlib Require Import SpecFloat PrimFloat FloatOps.
Import ListNotations.

Open Scope Q_scope.

(** ** Scalars *)

Inductive num : Type :=
| Finite (q : Q)
| NonFinite.

Definition vadd (a b : num) : num :=
  match a, b with
  | Finite p, Finite q => Finite (p + q)
  | _, _ => NonFinite
  end.

Definition vsub (a b : num) : num :=
  match a, b with
  | Finite p, Finite q => Finite (p - q)
  | _, _ => NonFinite
  end.

Definition vmul (a b : num) : num :=
  match a, b with
  | Finite p, Finite q => Finite (p * q)
  | _, _ => NonFinite
  end.

(** Division of NumPy scalars never raises: a zero divisor gives nan or an
    infinity (and a warning). *)
Definition vdiv (a b : num) : num :=
  match a, b with
  | Finite p, Finite q => if Qeq_bool q 0 then NonFinite else Finite (p / q)
  | _, _ => NonFinite
  end.

(** ** Exceptions and results *)

Inductive exn : Type :=
| ValueError (msg : string).

Inductive result (A : Type) : Type :=
| Ok (a : A)
| Raise (e : exn).

Arguments Ok {A} a.
Arguments Raise {A} e.

(** ** Arrays *)

Definition ndarray : Type := list num.

Definition lift (l : list Q) : ndarray := map Finite l.

(** [np.sum]: accumulation from zero. *)
Definition np_sum (a : ndarray) : num := fold_left vadd a (Finite 0).

Definition of_nat (n : nat) : num := Finite (inject_Z (Z.of_nat n)).

(** [np.mean]: the sum divided by the number of elements; the mean of an
    empty array is 0/0. *)
Definition np_mean (a : ndarray) : num := vdiv (np_sum a) (of_nat (length a)).

(** [a - v], [v + a], [v * a] and [a ** 2] for an array [a] and a scalar [v]. *)
Definition sub_scalar (a : ndarray) (v : num) : ndarray :=
  map (fun e => vsub e v) a.

Definition scalar_add (v : num) (a : ndarray) : ndarray := map (vadd v) a.

Definition scalar_mul (v : num) (a : ndarray) : ndarray := map (vmul v) a.

Definition square (a : ndarray) : ndarray := map (fun e => vmul e e) a.

Fixpoint zip_with (f : num -> num -> num) (a b : ndarray) : ndarray :=
  match a, b with
  | u :: a', v :: b' => f u v :: zip_with f a' b'
  | _, _ => []
  end.

(** Elementwise operation on two arrays: equal shapes are combined
    position by position, a one-element array is stretched to the other
    shape, anything else is a shape mismatch. *)
Definition broadcast (f : num -> num -> num) (a b : ndarray) : result ndarray :=
  if Nat.eqb (length a) (length b) then Ok (zip_with f a b)
  else match a, b with
       | [u], _ => Ok (map (f u) b)
       | _, [v] => Ok (map (fun e => f e v) a)
       | _, _ => Raise (ValueError "operands could not be broadcast together")
       end.

(** ** The regression estimator *)

Definition simple_linear_regression (x y : ndarray) : result (num * num) :=
  let n := length x in
  let x_mean := np_mean x in
  let y_mean := np_mean y in
  match broadcast vmul (sub_scalar x x_mean) (sub_scalar y y_mean) with
  | Raise e => Raise e
  | Ok prod =>
      let beta_1 := vdiv (np_sum prod) (np_sum (square (sub_scalar x x_mean))) in
      let beta_0 := vsub y_mean (vmul beta_1 x_mean) in
      Ok (beta_0, beta_1)
  end.

(** ** The random source and the generator *)

Section Simulation.

(** The state of NumPy's global generator and its two primitive draws:
    a uniform value in [0, 1) and a standard normal deviate. *)
Variable rng : Type.
Variable next_double : rng -> Q * rng.
Variable next_gauss : rng -> Q * rng.

(** Computations that read and advance the generator and may raise. *)
Definition M (A : Type) : Type := rng -> result A * rng.

Definition ret {A} (a : A) : M A := fun s => (Ok a, s).

Definition bind {A B} (m : M A) (k : A -> M B) : M B :=
  fun s => match m s with
           | (Ok a, s') => k a s'
           | (Raise e, s') => (Raise e, s')
           end.

Definition of_result {A} (r : result A) : M A := fun s => (r, s).

Notation "x <- m ;; k" := (bind m (fun x => k))
  (at level 100, m at next level, right associativity).
Notation "' p <- m ;; k" := (bind m (fun x => let p := x in k))
  (at level 100, p pattern, m at next level, right associativity).

(** [size] successive draws of [prim], each mapped through [f]. *)
Fixpoint draws (prim : rng -> Q * rng) (f : Q -> Q) (size : nat) (s : rng)
  : ndarray * rng :=
  match size with
  | O => ([], s)
  | S k =>
      let (u, s1) := prim s in
      let (rest, s2) := draws prim f k s1 in
      (Finite (f u) :: rest, s2)
  end.

(** The rationals behind an array of draws. *)
Fixpoint drawn (prim : rng -> Q * rng) (f : Q -> Q) (size : nat) (s : rng)
  : list Q :=
  match size with
  | O => []
  | S k => f (fst (prim s)) :: drawn prim f k (snd (prim s))
  end.

(** [np.random.uniform(low, high, size)]: [low + (high - low) * u] for
    each drawn [u]; a negative size is refused. *)
Definition np_random_uniform (low high : Q) (size : Z) : M ndarray :=
  fun s =>
    if (size <? 0)%Z
    then (Raise (ValueError "negative dimensions are not allowed"), s)
    else let (a, s') :=
           draws next_double (fun u => low + (high - low) * u) (Z.to_nat size) s
         in (Ok a, s').

(** [np.random.normal(loc, scale, size)]: [loc + scale * g] for each
    drawn deviate [g]; a negative scale is refused before anything is
    drawn. *)
Definition np_random_normal (loc scale : Q) (size : Z) : M ndarray :=
  fun s =>
    if negb (Qle_bool 0 scale)
    then (Raise (ValueError "scale < 0"), s)
    else if (size <? 0)%Z
    then (Raise (ValueError "negative dimensions are not allowed"), s)
    else let (a, s') :=
           draws next_gauss (fun g => loc + scale * g) (Z.to_nat size) s
         in (Ok a, s').

Definition generate_data (n : Z) (beta_0 beta_1 noise_std : Q)
  : M (ndarray * ndarray) :=
  x <- np_random_uniform 0 10 n ;;
  error <- np_random_normal 0 noise_std n ;;
  y <- of_result
         (broadcast vadd
            (scalar_add (Finite beta_0) (scalar_mul (Finite beta_1) x))
            error) ;;
  ret (x, y).

(** ** The simulation driver *)

(** The body of the [for] loop, run [count] times on the two growing
    lists of estimates. *)
Fixpoint trials (count : nat) (n : Z) (beta_0 beta_1 noise_std : Q)
    (beta_0_estimates beta_1_estimates : list num) : M (list num * list num) :=
  match count with
  | O => ret (beta_0_estimates, beta_1_estimates)
  | S count' =>
      '(x, y) <- generate_data n beta_0 beta_1 noise_std ;;
      '(beta_0_hat, beta_1_hat) <- of_result (simple_linear_regression x y) ;;
      trials count' n beta_0 beta_1 noise_std
        (beta_0_estimates ++ [beta_0_hat])
        (beta_1_estimates ++ [beta_1_hat])
  end.

(** [range(num_simulations)] is empty for a count that is not positive. *)
Definition monte_carlo_simulation (num_simulations n : Z)
    (beta_0 beta_1 noise_std : Q) : M (list num * list num) :=
  trials (Z.to_nat num_simulations) n beta_0 beta_1 noise_std [] [].

(** The generator state at the start of trial [i]. *)
Fixpoint state_after (i : nat) (n : Z) (beta_0 beta_1 noise_std : Q) (s : rng)
  : rng :=
  match i with
  | O => s
  | S k =>
      state_after k n beta_0 beta_1 noise_std
        (snd (generate_data n beta_0 beta_1 noise_std s))
  end.

End Simulation.

Arguments drawn {rng} prim f size s.

(** A small concrete generator used to run the model on examples: a linear
    congruential state, read off as a fraction for the uniform draw and
    as a centred half-integer for the normal one. *)
Module TestRng.

Definition state : Type := Z.

Definition step (s : state) : state := ((75 * s + 74) mod 65537)%Z.

Definition next_double (s : state) : Q * state :=
  (((s mod 1000)%Z # 1000), step s).

Definition next_gauss (s : state) : Q * state :=
  (((s mod 13 - 6)%Z # 2), step s).

Definition generate := generate_data state next_double next_gauss.

Definition run := monte_carlo_simulation state next_double next_gauss.

End TestRng.

(** The same generator with a count of the draws made in its state: a
    second implementation that delivers the same stream. *)
Module CountingRng.

Definition state : Type := (Z * nat)%type.

Definition next_double (s : state) : Q * state :=
  (fst (TestRng.next_double (fst s)),
   (snd (TestRng.next_double (fst s)), S (snd s))).

Definition next_gauss (s : state) : Q * state :=
  (fst (TestRng.next_gauss (fst s)),
   (snd (TestRng.next_gauss (fst s)), S (snd s))).

Definition run := monte_carlo_simulation state next_double next_gauss.

End CountingRng.

(** All elements of [x] are the same number. *)
Definition all_identical (x : list Q) : bool :=
  match x with
  | [] => true
  | a :: t => forallb (Qeq_bool a) t
  end.

(** ** Auxiliary definitions: sums of rationals *)

Definition Qsum (l : list Q) : Q := fold_left Qplus l 0.

Definition Qmean (l : list Q) : Q := Qsum l / inject_Z (Z.of_nat (length l)).

Fixpoint map2 (f : Q -> Q -> Q) (a b : list Q) : list Q :=
  match a, b with
  | u :: a', v :: b' => f u v :: map2 f a' b'
  | _, _ => []
  end.

(** Sum of squared deviations of [x] from [m], and of products of the
    deviations of [x] from [xm] and of [y] from [ym]. *)
Definition Sxx (m : Q) (x : list Q) : Q :=
  Qsum (map (fun a => (a - m) * (a - m)) x).

Definition Sxy (xm ym : Q) (x y : list Q) : Q :=
  Qsum (map2 (fun a b => (a - xm) * (b - ym)) x y).

(** The responses as rationals: the line plus the noise, position by
    position. *)
Definition line_plus_noise (beta_0 beta_1 : Q) (xs es : list Q) : list Q :=
  map2 (fun a e => beta_0 + beta_1 * a + e) xs es.

(** Two generators, possibly of different kinds, give the same draws from
    states related by [R] and move to related states; two outcomes agree
    when their results are equal and their states related. *)
Definition same_draws {rng1 rng2 : Type} (R : rng1 -> rng2 -> Prop)
    (p1 : rng1 -> Q * rng1) (p2 : rng2 -> Q * rng2) : Prop :=
  forall s1 s2, R s1 s2 ->
    fst (p1 s1) = fst (p2 s2) /\ R (snd (p1 s1)) (snd (p2 s2)).

Definition same_outcome {rng1 rng2 : Type} (R : rng1 -> rng2 -> Prop)
    {A : Type} (r1 : A * rng1) (r2 : A * rng2) : Prop :=
  fst r1 = fst r2 /\ R (snd r1) (snd r2).

(** ** Auxiliary definitions: position in the random stream *)

(** The generator state after [k] draws of [prim]. *)
Fixpoint advance {S : Type} (prim : S -> Q * S) (k : nat) (s : S) : S :=
  match k with
  | O => s
  | S k' => advance prim k' (snd (prim s))
  end.

(** * The arithmetic of the program: binary64

    The same estimator and generator over IEEE 754 binary64 numbers, every
    operation rounded to nearest even, with signed zeros, infinities and
    nan, as the Standard Library specifies them ([spec_float] with
    precision 53 and maximal exponent 1024).  Every property below that
    depends on how the program rounds is stated over this module. *)

Module Binary64.

Definition float64 : Type := spec_float.

Definition fadd : float64 -> float64 -> float64 := SFadd prec emax.
Definition fsub : float64 -> float64 -> float64 := SFsub prec emax.
Definition fmul : float64 -> float64 -> float64 := SFmul prec emax.
Definition fdiv : float64 -> float64 -> float64 := SFdiv prec emax.

(** The binary64 number a literal denotes. *)
Definition lit (x : float) : float64 := Prim2SF x.

Definition zero : float64 := S754_zero false.
Definition neg_zero : float64 := S754_zero true.

(** Conversion of a count to binary64, as the division of [np.mean] does. *)
Definition of_nat (n : nat) : float64 :=
  binary_normalize prec emax (Z.of_nat n) 0 false.



(** The sign bit of a number that is not nan. *)
Definition is_negative (v : float64) : bool :=
  match v with
  | S754_zero s | S754_infinity s | S754_finite s _ _ => s
  | S754_nan => false
  end.

Definition ndarray : Type := list float64.

Definition lits (l : list float) : ndarray := map lit l.

(** ** [np.sum]: pairwise summation

    Fewer than 8 elements are added one after the other; up to 128
    elements are added into 8 running sums, which are then combined as a
    tree, the elements left over being added last; a longer array is
    split in two parts (the first one a multiple of 8 long) that are
    summed the same way.  The reduction starts from the identity 0.0. *)

(** The running sum starts at -0.0, which leaves the first element as it
    is. *)
Definition sum_small (a : ndarray) : float64 := fold_left fadd a neg_zero.

Definition acc8 : Type :=
  (float64 * float64 * float64 * float64
   * float64 * float64 * float64 * float64)%type.

Fixpoint blocks8 (r : acc8) (a : ndarray) : acc8 * ndarray :=
  match a with
  | a0 :: a1 :: a2 :: a3 :: a4 :: a5 :: a6 :: a7 :: rest =>
      let '(r0, r1, r2, r3, r4, r5, r6, r7) := r in
      blocks8 (fadd r0 a0, fadd r1 a1, fadd r2 a2, fadd r3 a3,
               fadd r4 a4, fadd r5 a5, fadd r6 a6, fadd r7 a7) rest
  | _ => (r, a)
  end.

Definition sum_block (a : ndarray) : float64 :=
  match a with
  | a0 :: a1 :: a2 :: a3 :: a4 :: a5 :: a6 :: a7 :: rest =>
      let '((r0, r1, r2, r3, r4, r5, r6, r7), tail) :=
        blocks8 (a0, a1, a2, a3, a4, a5, a6, a7) rest in
      fold_left fadd tail
        (fadd (fadd (fadd r0 r1) (fadd r2 r3))
              (fadd (fadd r4 r5) (fadd r6 r7)))
  | _ => sum_small a
  end.

(** [depth] bounds the number of nested splits; the length of the array
    is always enough (see [pairwise_sum_depth]). *)
Fixpoint pairwise_sum (depth : nat) (a : ndarray) : option float64 :=
  let n := length a in
  if Nat.leb n 128 then Some (sum_block a)
  else
    match depth with
    | O => None
    | S depth' =>
        let n2 := (n / 2 - (n / 2) mod 8)%nat in
        match pairwise_sum depth' (firstn n2 a),
              pairwise_sum depth' (skipn n2 a) with
        | Some u, Some v => Some (fadd u v)
        | _, _ => None
        end
    end.

Definition np_sum (a : ndarray) : float64 :=
  match pairwise_sum (length a) a with
  | Some v => fadd zero v
  | None => S754_nan
  end.

Definition np_mean (a : ndarray) : float64 := fdiv (np_sum a) (of_nat (length a)).

(** ** Elementwise operations *)

Definition sub_scalar (a : ndarray) (v : float64) : ndarray :=
  map (fun e => fsub e v) a.

Definition scalar_add (v : float64) (a : ndarray) : ndarray := map (fadd v) a.


Definition scalar_mul (v : float64) (a : ndarray) : ndarray := map (fmul v) a.

Definition square (a : ndarray) : ndarray := map (fun e => fmul e e) a.

Fixpoint zip_with (f : float64 -> float64 -> float64) (a b : ndarray) : ndarray :=
  match a, b with
  | u :: a', v :: b' => f u v :: zip_with f a' b'
  | _, _ => []
  end.

Definition broadcast (f : float64 -> float64 -> float64) (a b : ndarray)
  : result ndarray :=
  if Nat.eqb (length a) (length b) then Ok (zip_with f a b)
  else match a, b with
       | [u], _ => Ok (map (f u) b)
       | _, [v] => Ok (map (fun e => f e v) a)
       | _, _ => Raise (ValueError "operands could not be broadcast together")
       end.

(** ** The regression estimator *)

Definition simple_linear_regression (x y : ndarray) : result (float64 * float64) :=
  let n := length x in
  let x_mean := np_mean x in
  let y_mean := np_mean y in
  match broadcast fmul (sub_scalar x x_mean) (sub_scalar y y_mean) with
  | Raise e => Raise e
  | Ok prod =>
      let beta_1 := fdiv (np_sum prod) (np_sum (square (sub_scalar x x_mean))) in
      let beta_0 := fsub y_mean (fmul beta_1 x_mean) in
      Ok (beta_0, beta_1)
  end.

(** ** The generator *)

Section Generator.

Variable rng : Type.
Variable next_double : rng -> float64 * rng.
Variable next_gauss : rng -> float64 * rng.

Notation "x <- m ;; k" := (bind rng m (fun x => k))
  (at level 100, m at next level, right associativity).

Fixpoint draws (prim : rng -> float64 * rng) (f : float64 -> float64)
    (size : nat) (s : rng) : ndarray * rng :=
  match size with
  | O => ([], s)
  | S k =>
      let (u, s1) := prim s in
      let (rest, s2) := draws prim f k s1 in
      (f u :: rest, s2)
  end.

(** The primitive values behind an array of draws. *)
Fixpoint drawn (prim : rng -> float64 * rng) (size : nat) (s : rng) : ndarray :=
  match size with
  | O => []
  | S k => fst (prim s) :: drawn prim k (snd (prim s))
  end.

(** [np.random.uniform(low, high, size)]: [low + (high - low) * u].  The
    library also refuses a range [high - low] that is not finite, which
    cannot happen for the bounds 0 and 10 the program passes. *)
Definition np_random_uniform (low high : float64) (size : Z) : M rng ndarray :=
  fun s =>
    if (size <? 0)%Z
    then (Raise (ValueError "negative dimensions are not allowed"), s)
    else let (a, s') :=
           draws next_double (fun u => fadd low (fmul (fsub high low) u))
             (Z.to_nat size) s
         in (Ok a, s').

(** [np.random.normal(loc, scale, size)]: [loc + scale * g]; a scale
    with the sign bit set (and not nan) is refused. *)
Definition np_random_normal (loc scale : float64) (size : Z) : M rng ndarray :=
  fun s =>
    if is_negative scale
    then (Raise (ValueError "scale < 0"), s)
    else if (size <? 0)%Z
    then (Raise (ValueError "negative dimensions are not allowed"), s)
    else let (a, s') :=
           draws next_gauss (fun g => fadd loc (fmul scale g)) (Z.to_nat size) s
         in (Ok a, s').

Definition generate_data (n : Z) (beta_0 beta_1 noise_std : float64)
  : M rng (ndarray * ndarray) :=
  x <- np_random_uniform zero (lit 10) n ;;
  error <- np_random_normal zero noise_std n ;;
  y <- of_result rng
         (broadcast fadd (scalar_add beta_0 (scalar_mul beta_1 x)) error) ;;
  ret rng (x, y).

End Generator.

(** A generator that replays a recorded list of draws, used to run the
    model on chosen draws. *)
Definition replay (s : list float64) : float64 * list float64 :=
  (hd zero s, tl s).

(** ** The estimator written the way the specification words it

    Terms read by position and summed over the index range, every
    operation in binary64 and the sums taken as [np.sum] takes them. *)





(** All elements of [x] are equal as numbers. *)
Definition all_identical (x : ndarray) : bool :=
  match x with
  | [] => true
  | a :: t => forallb (SFeqb a) t
  end.

End Binary64.

(** * Properties *)

(** ** Sums of rationals *)

Lemma fold_Qplus_acc (l : list Q) (a : Q) :
  fold_left Qplus l a == a + fold_left Qplus l 0.
Proof.
  revert a; induction l as [|b l IH]; intros a; simpl.
  - ring.
  - rewrite (IH (a + b)), (IH (0 + b)). ring.
Qed.

Lemma Qsum_nil : Qsum [] = 0.
Proof. reflexivity. Qed.

Lemma Qsum_cons (a : Q) (l : list Q) : Qsum (a :: l) == a + Qsum l.
Proof.
  unfold Qsum; simpl. rewrite fold_Qplus_acc. ring.
Qed.

Lemma inject_length_nonzero (A : Type) (l : list A) :
  l <> [] -> ~ inject_Z (Z.of_nat (length l)) == 0.
Proof.
  intros Hl H. destruct l as [|a l]; [congruence|].
  unfold Qeq in H; simpl in H. lia.
Qed.

Lemma Qeq_bool_length (A : Type) (l : list A) :
  l <> [] -> Qeq_bool (inject_Z (Z.of_nat (length l))) 0 = false.
Proof.
  intros Hl. destruct (Qeq_bool _ 0) eqn:E; [|reflexivity].
  apply Qeq_bool_iff in E. now apply inject_length_nonzero in E.
Qed.

(** ** Arrays of finite values *)

Lemma fold_vadd_lift (l : list Q) (a : Q) :
  fold_left vadd (lift l) (Finite a) = Finite (fold_left Qplus l a).
Proof.
  revert a; induction l as [|b l IH]; intros a; simpl; [reflexivity|].
  apply IH.
Qed.

Lemma np_sum_lift (l : list Q) : np_sum (lift l) = Finite (Qsum l).
Proof. apply fold_vadd_lift. Qed.

Lemma length_lift (l : list Q) : length (lift l) = length l.
Proof. apply length_map. Qed.

Lemma np_mean_lift (l : list Q) :
  l <> [] -> np_mean (lift l) = Finite (Qmean l).
Proof.
  intros Hl. unfold np_mean, of_nat, vdiv.
  rewrite np_sum_lift, length_lift, Qeq_bool_length by assumption.
  reflexivity.
Qed.

Lemma sub_scalar_lift (l : list Q) (m : Q) :
  sub_scalar (lift l) (Finite m) = lift (map (fun a => a - m) l).
Proof. unfold sub_scalar, lift. rewrite !map_map. reflexivity. Qed.

Lemma square_sub_scalar_lift (l : list Q) (m : Q) :
  square (sub_scalar (lift l) (Finite m))
  = lift (map (fun a => (a - m) * (a - m)) l).
Proof.
  rewrite sub_scalar_lift. unfold square, lift. rewrite !map_map. reflexivity.
Qed.

Lemma zip_with_vmul_sub_lift (x y : list Q) (xm ym : Q) :
  zip_with vmul (sub_scalar (lift x) (Finite xm)) (sub_scalar (lift y) (Finite ym))
  = lift (map2 (fun a b => (a - xm) * (b - ym)) x y).
Proof.
  revert y; induction x as [|a x IH]; intros [|b y]; simpl; try reflexivity.
  f_equal. apply IH.
Qed.

Lemma length_sub_scalar (a : ndarray) (v : num) :
  length (sub_scalar a v) = length a.
Proof. apply length_map. Qed.

Lemma broadcast_same_length (f : num -> num -> num) (a b : ndarray) :
  length a = length b -> broadcast f a b = Ok (zip_with f a b).
Proof.
  intros H. unfold broadcast. rewrite H, Nat.eqb_refl. reflexivity.
Qed.

(** ** What the estimator computes on finite samples *)

(** On a nonempty sample of equal lengths the estimator returns the two
    quotients below, whatever the denominator is. *)
Lemma simple_linear_regression_lift (x y : list Q) :
  x <> [] -> length x = length y ->
  simple_linear_regression (lift x) (lift y)
  = let beta_1 := vdiv (Finite (Sxy (Qmean x) (Qmean y) x y))
                       (Finite (Sxx (Qmean x) x)) in
    Ok (vsub (Finite (Qmean y)) (vmul beta_1 (Finite (Qmean x))), beta_1).
Proof.
  intros Hx Hlen.
  assert (Hy : y <> []) by (destruct x, y; simpl in *; congruence).
  unfold simple_linear_regression.
  rewrite (np_mean_lift x Hx), (np_mean_lift y Hy).
  rewrite broadcast_same_length
    by (rewrite !length_sub_scalar, !length_lift; exact Hlen).
  rewrite zip_with_vmul_sub_lift, square_sub_scalar_lift, !np_sum_lift.
  reflexivity.
Qed.

Lemma simple_linear_regression_degenerate (x y : list Q) :
  length x = length y -> Sxx (Qmean x) x == 0 ->
  simple_linear_regression (lift x) (lift y) = Ok (NonFinite, NonFinite).
Proof.
  intros Hlen Hden. destruct x as [|a x].
  - destruct y; [reflexivity|discriminate].
  - rewrite simple_linear_regression_lift by (congruence || assumption).
    simpl. apply Qeq_bool_iff in Hden. rewrite Hden. reflexivity.
Qed.

(** ** The denominator *)

Lemma Sxx_zero_intro (m : Q) (x : list Q) :
  Forall (fun a => a == m) x -> Sxx m x == 0.
Proof.
  induction 1 as [|a x Ha _ IH]; unfold Sxx in *; simpl.
  - reflexivity.
  - rewrite Qsum_cons, IH, Ha. ring.
Qed.

Lemma Qsum_constant (m : Q) (x : list Q) :
  Forall (fun a => a == m) x -> Qsum x == inject_Z (Z.of_nat (length x)) * m.
Proof.
  induction 1 as [|a x Ha _ IH].
  - simpl. rewrite Qsum_nil. ring.
  - change (length (a :: x)) with (S (length x)).
    rewrite Qsum_cons, IH, Ha, Nat2Z.inj_succ. unfold Z.succ. rewrite inject_Z_plus. ring.
Qed.

Lemma Forall_all_identical (x : list Q) :
  all_identical x = true -> Forall (fun a => a == Qmean x) x.
Proof.
  intros H. destruct x as [|a x]; [constructor|].
  assert (Hall : Forall (fun b => b == a) (a :: x)).
  { constructor; [reflexivity|]. simpl in H.
    apply Forall_forall. intros b Hb.
    rewrite forallb_forall in H. symmetry. apply Qeq_bool_iff. now apply H. }
  assert (Hm : Qmean (a :: x) == a).
  { unfold Qmean. rewrite (Qsum_constant a) by exact Hall.
    field. apply inject_length_nonzero. discriminate. }
  eapply Forall_impl; [|exact Hall].
  intros b Hb. simpl in Hb. rewrite Hb, Hm. reflexivity.
Qed.

(** C8.  On [x = [1, 2, 3]], [y = [2, 4, 6]] the estimator returns the
    intercept 0 and the slope 2, exactly and hence within 1e-9. *)
Theorem simple_linear_regression_1_2_3 :
  exists interceptHat slopeHat,
    simple_linear_regression (lift [1; 2; 3]) (lift [2; 4; 6])
    = Ok (Finite interceptHat, Finite slopeHat)
    /\ interceptHat == 0 /\ slopeHat == 2
    /\ Qabs (interceptHat - 0) <= 1 # 1000000000
    /\ Qabs (slopeHat - 2) <= 1 # 1000000000.
Proof.
  eexists; eexists. split; [vm_compute; reflexivity|].
  repeat split; vm_compute; congruence.
Qed.

Lemma simple_linear_regression_same_length (x y : ndarray) :
  length x = length y ->
  exists beta_0 beta_1, simple_linear_regression x y = Ok (beta_0, beta_1).
Proof.
  intros H. unfold simple_linear_regression.
  rewrite broadcast_same_length by (rewrite !length_sub_scalar; exact H).
  eauto.
Qed.

Lemma simple_linear_regression_short (xs ys : list Q) :
  length xs = length ys -> (length xs <= 1)%nat ->
  simple_linear_regression (lift xs) (lift ys) = Ok (NonFinite, NonFinite).
Proof.
  intros Hlen Hshort.
  apply simple_linear_regression_degenerate; [exact Hlen|].
  apply Sxx_zero_intro, Forall_all_identical.
  destruct xs as [|a [|b xs]]; simpl in *; try reflexivity; lia.
Qed.

(** ** The generator *)

Lemma nth_error_zip_with (f : num -> num -> num) (a b : ndarray) (i : nat) (u v : num) :
  nth_error a i = Some u -> nth_error b i = Some v ->
  nth_error (zip_with f a b) i = Some (f u v).
Proof.
  revert b i; induction a as [|u' a IH]; intros [|v' b] [|i] Ha Hb;
    simpl in *; try discriminate.
  - congruence.
  - now apply IH.
Qed.

Lemma nth_error_in_range (A : Type) (l : list A) (i : nat) :
  (i < length l)%nat -> exists a, nth_error l i = Some a.
Proof.
  intros H. destruct (nth_error l i) eqn:E; [eauto|].
  apply nth_error_None in E. lia.
Qed.

Section SimulationProperties.

Variable rng : Type.
Variable next_double : rng -> Q * rng.
Variable next_gauss : rng -> Q * rng.

Local Abbreviation uniform := (np_random_uniform rng next_double).
Local Abbreviation normal := (np_random_normal rng next_gauss).
Local Abbreviation generate := (generate_data rng next_double next_gauss).
Local Abbreviation loop := (trials rng next_double next_gauss).
Local Abbreviation run := (monte_carlo_simulation rng next_double next_gauss).
Local Abbreviation state_at := (state_after rng next_double next_gauss).

Lemma draws_drawn prim f size s :
  fst (draws rng prim f size s) = lift (drawn prim f size s).
Proof.
  revert s; induction size as [|k IH]; intros s; simpl; [reflexivity|].
  destruct (prim s) as [u s1]; simpl.
  specialize (IH s1). destruct (draws rng prim f k s1) as [rest s2].
  simpl in *. now rewrite IH.
Qed.

Lemma length_drawn (prim : rng -> Q * rng) f size s : length (drawn prim f size s) = size.
Proof.
  revert s; induction size as [|k IH]; intros s; simpl; auto.
Qed.

Lemma uniform_ok low high n s :
  (0 <= n)%Z ->
  uniform low high n s
  = (Ok (lift (drawn next_double (fun u => low + (high - low) * u) (Z.to_nat n) s)),
     snd (uniform low high n s)).
Proof.
  intros Hn. unfold np_random_uniform.
  destruct (Z.ltb_spec n 0); [lia|].
  pose proof (draws_drawn next_double (fun u => low + (high - low) * u)
                (Z.to_nat n) s) as Hd.
  destruct (draws rng next_double _ (Z.to_nat n) s) as [a s1].
  simpl in *. now rewrite Hd.
Qed.

Lemma normal_ok loc scale n s :
  (0 <= n)%Z -> 0 <= scale ->
  normal loc scale n s
  = (Ok (lift (drawn next_gauss (fun g => loc + scale * g) (Z.to_nat n) s)),
     snd (normal loc scale n s)).
Proof.
  intros Hn Hs. unfold np_random_normal.
  apply Qle_bool_iff in Hs. rewrite Hs. simpl negb. cbv iota.
  destruct (Z.ltb_spec n 0); [lia|].
  pose proof (draws_drawn next_gauss (fun g => loc + scale * g)
                (Z.to_nat n) s) as Hd.
  destruct (draws rng next_gauss _ (Z.to_nat n) s) as [a s1].
  simpl in *. now rewrite Hd.
Qed.

Lemma uniform_negative low high n s :
  (n < 0)%Z ->
  uniform low high n s
  = (Raise (ValueError "negative dimensions are not allowed"), s).
Proof.
  intros Hn. unfold np_random_uniform.
  destruct (Z.ltb_spec n 0); [reflexivity|lia].
Qed.

Lemma response_lift beta_0 beta_1 xs es :
  zip_with vadd
    (scalar_add (Finite beta_0) (scalar_mul (Finite beta_1) (lift xs)))
    (lift es)
  = lift (line_plus_noise beta_0 beta_1 xs es).
Proof.
  revert es; induction xs as [|a xs IH]; intros [|e es]; simpl;
    try reflexivity.
  f_equal. apply IH.
Qed.

Lemma length_line_plus_noise beta_0 beta_1 xs es :
  length xs = length es ->
  length (line_plus_noise beta_0 beta_1 xs es) = length xs.
Proof.
  unfold line_plus_noise.
  revert es; induction xs as [|a xs IH]; intros [|e es] H; simpl in *;
    try discriminate; auto.
Qed.

(** For a size that is not negative and a scale that is not negative
    the generator succeeds, and its result is made of the two arrays
    of draws. *)
Lemma generate_data_ok n beta_0 beta_1 noise_std s :
  (0 <= n)%Z -> 0 <= noise_std ->
  let xs := drawn next_double (fun u => 0 + (10 - 0) * u) (Z.to_nat n) s in
  let s1 := snd (uniform 0 10 n s) in
  let es := drawn next_gauss (fun g => 0 + noise_std * g) (Z.to_nat n) s1 in
  generate n beta_0 beta_1 noise_std s
  = (Ok (lift xs, lift (line_plus_noise beta_0 beta_1 xs es)),
     snd (normal 0 noise_std n s1)).
Proof.
  intros Hn Hs xs s1 es.
  unfold generate_data, bind.
  rewrite (uniform_ok 0 10 n s Hn). fold xs; fold s1.
  rewrite (normal_ok 0 noise_std n s1 Hn Hs). fold es.
  unfold of_result, ret.
  rewrite broadcast_same_length.
  - rewrite response_lift. reflexivity.
  - unfold scalar_add, scalar_mul. rewrite !length_map, !length_lift.
    unfold xs, es. now rewrite !length_drawn.
Qed.

(** C3.  For [n >= 1] and parameters whose noise deviation is not
    negative, the generator returns [x] and [y] of length [n], where
    [x] is the array of uniform draws and
    [y[i] = beta_0 + beta_1 * x[i] + noise[i]] for the [i]-th value
    [noise[i]] of the array of normal draws made after [x]. *)
Theorem generate_data_line_plus_noise (n : Z) (beta_0 beta_1 noise_std : Q) (s : rng) :
  (1 <= n)%Z ->
  0 <= noise_std ->
  exists x noise y s1 s2,
    uniform 0 10 n s = (Ok x, s1)
    /\ normal 0 noise_std n s1 = (Ok noise, s2)
    /\ generate n beta_0 beta_1 noise_std s = (Ok (x, y), s2)
    /\ length x = Z.to_nat n
    /\ length y = Z.to_nat n
    /\ forall i, (i < Z.to_nat n)%nat ->
         exists xi ei,
           nth_error x i = Some xi
           /\ nth_error noise i = Some ei
           /\ nth_error y i
              = Some (vadd (vadd (Finite beta_0) (vmul (Finite beta_1) xi)) ei).
Proof.
  intros Hn Hs.
  assert (Hn0 : (0 <= n)%Z) by lia.
  pose proof (uniform_ok 0 10 n s Hn0) as Hu.
  set (s1 := snd (uniform 0 10 n s)) in *.
  pose proof (normal_ok 0 noise_std n s1 Hn0 Hs) as Hg.
  pose proof (generate_data_ok n beta_0 beta_1 noise_std s Hn0 Hs) as Hd.
  cbv zeta in Hd. fold s1 in Hd.
  set (xs := drawn next_double _ (Z.to_nat n) s) in *.
  set (es := drawn next_gauss _ (Z.to_nat n) s1) in *.
  assert (Hlx : length xs = Z.to_nat n) by apply length_drawn.
  assert (Hle : length es = Z.to_nat n) by apply length_drawn.
  exists (lift xs), (lift es), (lift (line_plus_noise beta_0 beta_1 xs es)),
    s1, (snd (normal 0 noise_std n s1)).
  repeat split; try assumption.
  - now rewrite length_lift.
  - rewrite length_lift, length_line_plus_noise; congruence.
  - intros i Hi.
    destruct (nth_error_in_range _ (lift xs) i) as [xi Hxi];
      [rewrite length_lift; lia|].
    destruct (nth_error_in_range _ (lift es) i) as [ei Hei];
      [rewrite length_lift; lia|].
    exists xi, ei. repeat split; try assumption.
    rewrite <- response_lift.
    apply nth_error_zip_with; [|exact Hei].
    unfold scalar_add, scalar_mul.
    rewrite !nth_error_map, Hxi. reflexivity.
Qed.

(** ** The driver *)

Lemma trials_step count n beta_0 beta_1 noise_std acc0 acc1 s x y s1 b0h b1h :
  generate n beta_0 beta_1 noise_std s = (Ok (x, y), s1) ->
  simple_linear_regression x y = Ok (b0h, b1h) ->
  loop (S count) n beta_0 beta_1 noise_std acc0 acc1 s
  = loop count n beta_0 beta_1 noise_std (acc0 ++ [b0h]) (acc1 ++ [b1h]) s1.
Proof.
  intros Hg Hf. simpl. unfold bind at 1. rewrite Hg.
  unfold bind, of_result. rewrite Hf. reflexivity.
Qed.

Lemma trials_raise count n beta_0 beta_1 noise_std acc0 acc1 s e s1 :
  generate n beta_0 beta_1 noise_std s = (Raise e, s1) ->
  loop (S count) n beta_0 beta_1 noise_std acc0 acc1 s = (Raise e, s1).
Proof.
  intros Hg. simpl. unfold bind at 1. rewrite Hg. reflexivity.
Qed.

Lemma trials_ok n beta_0 beta_1 noise_std :
  (0 <= n)%Z -> 0 <= noise_std ->
  forall count acc0 acc1 s,
  exists est0 est1,
    loop count n beta_0 beta_1 noise_std acc0 acc1 s
    = (Ok (acc0 ++ est0, acc1 ++ est1),
       state_at count n beta_0 beta_1 noise_std s)
    /\ length est0 = count
    /\ length est1 = count
    /\ forall i, (i < count)%nat ->
         exists x y beta_0_hat beta_1_hat,
           fst (generate n beta_0 beta_1 noise_std
                  (state_at i n beta_0 beta_1 noise_std s)) = Ok (x, y)
           /\ simple_linear_regression x y = Ok (beta_0_hat, beta_1_hat)
           /\ nth_error est0 i = Some beta_0_hat
           /\ nth_error est1 i = Some beta_1_hat.
Proof.
  intros Hn Hs. induction count as [|count IH]; intros acc0 acc1 s.
  - exists [], []. simpl. unfold ret. rewrite !app_nil_r.
    repeat split. intros i Hi. lia.
  - pose proof (generate_data_ok n beta_0 beta_1 noise_std s Hn Hs) as Hg.
    cbv zeta in Hg.
    set (xs := drawn next_double _ (Z.to_nat n) s) in *.
    set (es := drawn next_gauss _ _ _) in *.
    set (s1 := snd (normal 0 noise_std n _)) in *.
    assert (Hlen : length (lift xs)
                   = length (lift (line_plus_noise beta_0 beta_1 xs es))).
    { rewrite !length_lift, length_line_plus_noise; [reflexivity|].
      unfold xs, es. now rewrite !length_drawn. }
    destruct (simple_linear_regression_same_length _ _ Hlen) as (b0h & b1h & Hf).
    destruct (IH (acc0 ++ [b0h]) (acc1 ++ [b1h]) s1)
      as (est0 & est1 & Hrun & Hl0 & Hl1 & Hnth).
    exists (b0h :: est0), (b1h :: est1).
    rewrite (trials_step _ _ _ _ _ _ _ _ _ _ _ _ _ Hg Hf), Hrun.
    rewrite <- !app_assoc. simpl. rewrite Hg. simpl.
    repeat split; try congruence.
    intros [|i] Hi.
    + simpl. rewrite Hg. simpl. eauto 10.
    + simpl. rewrite Hg. simpl. apply Hnth. lia.
Qed.

(** C2.  For [num_simulations > 0] and [n > 1] (and a noise deviation
    that is not negative) the driver returns two sequences of length
    [num_simulations]; their [i]-th elements are the intercept and the
    slope fitted from the sample generated in trial [i]. *)
Theorem monte_carlo_simulation_estimates
    (num_simulations n : Z) (beta_0 beta_1 noise_std : Q) (s : rng) :
  (0 < num_simulations)%Z ->
  (1 < n)%Z ->
  0 <= noise_std ->
  exists beta_0_estimates beta_1_estimates,
    run num_simulations n beta_0 beta_1 noise_std s
    = (Ok (beta_0_estimates, beta_1_estimates),
       state_at (Z.to_nat num_simulations) n beta_0 beta_1 noise_std s)
    /\ Z.of_nat (length beta_0_estimates) = num_simulations
    /\ Z.of_nat (length beta_1_estimates) = num_simulations
    /\ forall i, (i < Z.to_nat num_simulations)%nat ->
         exists x y beta_0_hat beta_1_hat,
           fst (generate n beta_0 beta_1 noise_std
                  (state_at i n beta_0 beta_1 noise_std s)) = Ok (x, y)
           /\ length x = Z.to_nat n
           /\ length y = Z.to_nat n
           /\ simple_linear_regression x y = Ok (beta_0_hat, beta_1_hat)
           /\ nth_error beta_0_estimates i = Some beta_0_hat
           /\ nth_error beta_1_estimates i = Some beta_1_hat.
Proof.
  intros Hnum Hn Hs.
  assert (Hn0 : (0 <= n)%Z) by lia.
  destruct (trials_ok n beta_0 beta_1 noise_std Hn0 Hs
              (Z.to_nat num_simulations) [] [] s)
    as (est0 & est1 & Hrun & Hl0 & Hl1 & Hnth).
  exists est0, est1. unfold monte_carlo_simulation.
  repeat split; try lia; [exact Hrun|].
  intros i Hi. destruct (Hnth i Hi) as (x & y & b0h & b1h & Hg & Hf & H0 & H1).
  exists x, y, b0h, b1h.
  rewrite generate_data_ok in Hg by assumption. simpl in Hg.
  injection Hg as Hx Hy. subst x y.
  repeat split; try assumption.
  - rewrite generate_data_ok by assumption. reflexivity.
  - rewrite length_lift. apply length_drawn.
  - rewrite length_lift, length_line_plus_noise; rewrite !length_drawn;
      reflexivity.
Qed.

(** C10.  With [num_simulations = 0] the driver raises nothing and
    returns two empty sequences; the generator state is the one it was
    given, so nothing was drawn. *)
Theorem monte_carlo_simulation_zero_trials
    (n : Z) (beta_0 beta_1 noise_std : Q) (s : rng) :
  run 0 n beta_0 beta_1 noise_std s = (Ok ([], []), s).
Proof. reflexivity. Qed.

Lemma generate_data_negative n beta_0 beta_1 noise_std s :
  (n < 0)%Z ->
  generate n beta_0 beta_1 noise_std s
  = (Raise (ValueError "negative dimensions are not allowed"), s).
Proof.
  intros Hn. unfold generate_data, bind.
  rewrite uniform_negative by exact Hn. reflexivity.
Qed.

(** ** Degenerate arguments *)

Lemma trials_degenerate n beta_0 beta_1 noise_std :
  (0 <= n <= 1)%Z -> 0 <= noise_std ->
  forall count acc0 acc1 s,
    loop count n beta_0 beta_1 noise_std acc0 acc1 s
    = (Ok (acc0 ++ repeat NonFinite count, acc1 ++ repeat NonFinite count),
       state_at count n beta_0 beta_1 noise_std s).
Proof.
  intros Hn Hs. induction count as [|count IH]; intros acc0 acc1 s.
  - simpl. unfold ret. now rewrite !app_nil_r.
  - pose proof (generate_data_ok n beta_0 beta_1 noise_std s (proj1 Hn) Hs) as Hg.
    cbv zeta in Hg.
    set (xs := drawn next_double _ (Z.to_nat n) s) in *.
    set (es := drawn next_gauss _ _ _) in *.
    assert (Hlx : length xs = Z.to_nat n) by apply length_drawn.
    assert (Hle : length es = Z.to_nat n) by apply length_drawn.
    assert (Hf : simple_linear_regression (lift xs)
                   (lift (line_plus_noise beta_0 beta_1 xs es))
                 = Ok (NonFinite, NonFinite)).
    { apply simple_linear_regression_short.
      - rewrite length_line_plus_noise; congruence.
      - lia. }
    rewrite (trials_step _ _ _ _ _ _ _ _ _ _ _ _ _ Hg Hf), IH.
    rewrite <- !app_assoc. simpl. rewrite Hg. reflexivity.
Qed.

(** C4, as the program has it.  The driver validates nothing and never
    rejects its arguments on its own: a trial count that is not
    positive gives two empty sequences and draws nothing, whatever [n]
    is; a positive trial count with [n] equal to 0 or 1 runs every
    trial and returns that many undefined estimates in each sequence;
    a negative [n] with a positive trial count is refused by the array
    library inside the first trial, before anything is drawn. *)
Theorem monte_carlo_simulation_no_validation
    (num_simulations n : Z) (beta_0 beta_1 noise_std : Q) (s : rng) :
  ((num_simulations <= 0)%Z ->
     run num_simulations n beta_0 beta_1 noise_std s = (Ok ([], []), s))
  /\ ((0 < num_simulations)%Z -> (0 <= n <= 1)%Z -> 0 <= noise_std ->
        run num_simulations n beta_0 beta_1 noise_std s
        = (Ok (repeat NonFinite (Z.to_nat num_simulations),
               repeat NonFinite (Z.to_nat num_simulations)),
           state_at (Z.to_nat num_simulations) n beta_0 beta_1 noise_std s))
  /\ ((0 < num_simulations)%Z -> (n < 0)%Z ->
        run num_simulations n beta_0 beta_1 noise_std s
        = (Raise (ValueError "negative dimensions are not allowed"), s)).
Proof.
  unfold monte_carlo_simulation. repeat split.
  - intros Hnum. replace (Z.to_nat num_simulations) with O by lia.
    reflexivity.
  - intros _ Hn Hs. apply (trials_degenerate n beta_0 beta_1 noise_std Hn Hs).
  - intros Hnum Hn.
    destruct (Z.to_nat num_simulations) as [|count] eqn:E; [lia|].
    apply trials_raise, generate_data_negative, Hn.
Qed.

End SimulationProperties.


(** ** Determinism *)

Section Determinism.

Variables rng1 rng2 : Type.
Variable next_double1 next_gauss1 : rng1 -> Q * rng1.
Variable next_double2 next_gauss2 : rng2 -> Q * rng2.
Variable R : rng1 -> rng2 -> Prop.

Hypothesis double_related : same_draws R next_double1 next_double2.
Hypothesis gauss_related : same_draws R next_gauss1 next_gauss2.

Lemma draws_related p1 p2 f size :
  same_draws R p1 p2 ->
  forall s1 s2, R s1 s2 ->
    same_outcome R (draws rng1 p1 f size s1) (draws rng2 p2 f size s2).
Proof.
  intros Hp. induction size as [|k IH]; intros s1 s2 HR; simpl.
  - split; [reflexivity|exact HR].
  - destruct (Hp s1 s2 HR) as [Hu HR'].
    destruct (p1 s1) as [u1 t1], (p2 s2) as [u2 t2]; simpl in *.
    destruct (IH t1 t2 HR') as [Ha HR''].
    destruct (draws rng1 p1 f k t1) as [a1 w1],
             (draws rng2 p2 f k t2) as [a2 w2]; simpl in *.
    subst u2 a2. split; [reflexivity|exact HR''].
Qed.

Lemma bind_related {A B} (m1 : M rng1 A) (m2 : M rng2 A)
    (k1 : A -> M rng1 B) (k2 : A -> M rng2 B) s1 s2 :
  same_outcome R (m1 s1) (m2 s2) ->
  (forall a t1 t2, R t1 t2 -> same_outcome R (k1 a t1) (k2 a t2)) ->
  same_outcome R (bind rng1 m1 k1 s1) (bind rng2 m2 k2 s2).
Proof.
  intros [Hr HR] Hk. unfold bind.
  destruct (m1 s1) as [r1 t1], (m2 s2) as [r2 t2]; simpl in *. subst r2.
  destruct r1 as [a|e]; [now apply Hk|].
  split; [reflexivity|exact HR].
Qed.

Lemma uniform_related low high n s1 s2 :
  R s1 s2 ->
  same_outcome R (np_random_uniform rng1 next_double1 low high n s1)
               (np_random_uniform rng2 next_double2 low high n s2).
Proof.
  intros HR. unfold np_random_uniform.
  destruct (n <? 0)%Z; [split; [reflexivity|exact HR]|].
  destruct (draws_related next_double1 next_double2
              (fun u => low + (high - low) * u) (Z.to_nat n)
              double_related s1 s2 HR) as [Ha HR'].
  destruct (draws rng1 _ _ _ s1), (draws rng2 _ _ _ s2); simpl in *.
  subst. split; [reflexivity|exact HR'].
Qed.

Lemma normal_related loc scale n s1 s2 :
  R s1 s2 ->
  same_outcome R (np_random_normal rng1 next_gauss1 loc scale n s1)
               (np_random_normal rng2 next_gauss2 loc scale n s2).
Proof.
  intros HR. unfold np_random_normal.
  destruct (negb (Qle_bool 0 scale)); [split; [reflexivity|exact HR]|].
  destruct (n <? 0)%Z; [split; [reflexivity|exact HR]|].
  destruct (draws_related next_gauss1 next_gauss2
              (fun g => loc + scale * g) (Z.to_nat n)
              gauss_related s1 s2 HR) as [Ha HR'].
  destruct (draws rng1 _ _ _ s1), (draws rng2 _ _ _ s2); simpl in *.
  subst. split; [reflexivity|exact HR'].
Qed.

Lemma generate_data_related n beta_0 beta_1 noise_std s1 s2 :
  R s1 s2 ->
  same_outcome R
    (generate_data rng1 next_double1 next_gauss1 n beta_0 beta_1 noise_std s1)
    (generate_data rng2 next_double2 next_gauss2 n beta_0 beta_1 noise_std s2).
Proof.
  intros HR. unfold generate_data.
  apply bind_related; [now apply uniform_related|].
  intros x t1 t2 Ht. apply bind_related; [now apply normal_related|].
  intros e u1 u2 Hu. apply bind_related; [split; [reflexivity|exact Hu]|].
  intros y v1 v2 Hv. split; [reflexivity|exact Hv].
Qed.

Lemma trials_related n beta_0 beta_1 noise_std count :
  forall acc0 acc1 s1 s2, R s1 s2 ->
  same_outcome R
    (trials rng1 next_double1 next_gauss1 count n beta_0 beta_1 noise_std
       acc0 acc1 s1)
    (trials rng2 next_double2 next_gauss2 count n beta_0 beta_1 noise_std
       acc0 acc1 s2).
Proof.
  induction count as [|count IH]; intros acc0 acc1 s1 s2 HR; simpl.
  - split; [reflexivity|exact HR].
  - apply bind_related; [now apply generate_data_related|].
    intros [x y] t1 t2 Ht.
    apply bind_related; [split; [reflexivity|exact Ht]|].
    intros [b0h b1h] u1 u2 Hu. now apply IH.
Qed.

(** C7.  Two invocations of the driver with the same arguments return
    the same two sequences whenever their generators start in states
    that deliver the same stream of draws, and they leave the generators
    in states that again deliver the same stream.  Two invocations from
    the same seed of the same generator are the case where [R] is
    equality; the two generators may also be different implementations
    of one stream. *)
Theorem monte_carlo_simulation_deterministic
    (num_simulations n : Z) (beta_0 beta_1 noise_std : Q) (s1 : rng1) (s2 : rng2) :
  R s1 s2 ->
  fst (monte_carlo_simulation rng1 next_double1 next_gauss1
         num_simulations n beta_0 beta_1 noise_std s1)
  = fst (monte_carlo_simulation rng2 next_double2 next_gauss2
           num_simulations n beta_0 beta_1 noise_std s2)
  /\ R (snd (monte_carlo_simulation rng1 next_double1 next_gauss1
               num_simulations n beta_0 beta_1 noise_std s1))
       (snd (monte_carlo_simulation rng2 next_double2 next_gauss2
               num_simulations n beta_0 beta_1 noise_std s2)).
Proof.
  intros HR.
  apply (trials_related n beta_0 beta_1 noise_std
           (Z.to_nat num_simulations) [] [] s1 s2 HR).
Qed.

End Determinism.

(** * Runs on the concrete generator *)

Lemma generate_data_line_plus_noise_witness :
  exists x noise y s1 s2,
    np_random_uniform TestRng.state TestRng.next_double 0 10 3 42%Z = (Ok x, s1)
    /\ np_random_normal TestRng.state TestRng.next_gauss 0 1 3 s1 = (Ok noise, s2)
    /\ TestRng.generate 3 2 3 1 42%Z = (Ok (x, y), s2)
    /\ length x = Z.to_nat 3
    /\ length y = Z.to_nat 3
    /\ forall i, (i < Z.to_nat 3)%nat ->
         exists xi ei,
           nth_error x i = Some xi
           /\ nth_error noise i = Some ei
           /\ nth_error y i = Some (vadd (vadd (Finite 2) (vmul (Finite 3) xi)) ei).
Proof.
  apply (generate_data_line_plus_noise TestRng.state TestRng.next_double
           TestRng.next_gauss 3 2 3 1 42%Z).
  - lia.
  - unfold Qle; simpl; lia.
Defined.

Lemma monte_carlo_simulation_estimates_witness :
  exists beta_0_estimates beta_1_estimates,
    TestRng.run 2 3 2 3 1 42%Z
    = (Ok (beta_0_estimates, beta_1_estimates),
       state_after TestRng.state TestRng.next_double TestRng.next_gauss
         (Z.to_nat 2) 3 2 3 1 42%Z)
    /\ Z.of_nat (length beta_0_estimates) = 2%Z
    /\ Z.of_nat (length beta_1_estimates) = 2%Z
    /\ forall i, (i < Z.to_nat 2)%nat ->
         exists x y beta_0_hat beta_1_hat,
           fst (TestRng.generate 3 2 3 1
                  (state_after TestRng.state TestRng.next_double TestRng.next_gauss
                     i 3 2 3 1 42%Z)) = Ok (x, y)
           /\ length x = Z.to_nat 3
           /\ length y = Z.to_nat 3
           /\ simple_linear_regression x y = Ok (beta_0_hat, beta_1_hat)
           /\ nth_error beta_0_estimates i = Some beta_0_hat
           /\ nth_error beta_1_estimates i = Some beta_1_hat.
Proof.
  apply (monte_carlo_simulation_estimates TestRng.state TestRng.next_double
           TestRng.next_gauss 2 3 2 3 1 42%Z).
  - lia.
  - lia.
  - unfold Qle; simpl; lia.
Defined.

(** C4, as the specification words it, fails: with [n = 1] and one trial
    the driver raises nothing, draws from the generator and returns one
    undefined estimate in each sequence; with a trial count of zero it
    returns two empty sequences.  So it is not the case that every call
    with [n <= 1] or a trial count that is not positive ends in an
    error. *)
Lemma monte_carlo_simulation_accepts_degenerate_arguments :
  TestRng.run 1 1 2 3 1 42%Z = (Ok ([NonFinite], [NonFinite]), 45263%Z)
  /\ TestRng.run 0 100 2 3 1 42%Z = (Ok ([], []), 42%Z)
  /\ ~ (forall (num_simulations n : Z) (beta_0 beta_1 noise_std : Q) (s : TestRng.state),
          (n <= 1)%Z \/ (num_simulations <= 0)%Z ->
          exists e s',
            TestRng.run num_simulations n beta_0 beta_1 noise_std s = (Raise e, s')).
Proof.
  split; [vm_compute; reflexivity|].
  split; [vm_compute; reflexivity|].
  intros H. destruct (H 1%Z 1%Z 2 3 1 42%Z) as (e & s' & He); [left; lia|].
  vm_compute in He. discriminate.
Qed.

Lemma monte_carlo_simulation_no_validation_witness :
  TestRng.run (-2) 5 2 3 1 42%Z = (Ok ([], []), 42%Z)
  /\ TestRng.run 2 1 2 3 1 42%Z
     = (Ok (repeat NonFinite (Z.to_nat 2), repeat NonFinite (Z.to_nat 2)),
        state_after TestRng.state TestRng.next_double TestRng.next_gauss
          (Z.to_nat 2) 1 2 3 1 42%Z)
  /\ TestRng.run 2 (-1) 2 3 1 42%Z
     = (Raise (ValueError "negative dimensions are not allowed"), 42%Z).
Proof.
  split; [|split].
  - apply (proj1 (monte_carlo_simulation_no_validation TestRng.state
                    TestRng.next_double TestRng.next_gauss (-2) 5 2 3 1 42%Z)).
    lia.
  - apply (proj1 (proj2 (monte_carlo_simulation_no_validation TestRng.state
                    TestRng.next_double TestRng.next_gauss 2 1 2 3 1 42%Z))).
    + lia.
    + lia.
    + unfold Qle; simpl; lia.
  - apply (proj2 (proj2 (monte_carlo_simulation_no_validation TestRng.state
                    TestRng.next_double TestRng.next_gauss 2 (-1) 2 3 1 42%Z))).
    + lia.
    + lia.
Defined.

Lemma monte_carlo_simulation_deterministic_witness :
  fst (TestRng.run 2 3 2 3 1 42%Z) = fst (CountingRng.run 2 3 2 3 1 (42%Z, 0%nat))
  /\ snd (TestRng.run 2 3 2 3 1 42%Z)
     = fst (snd (CountingRng.run 2 3 2 3 1 (42%Z, 0%nat))).
Proof.
  apply (monte_carlo_simulation_deterministic
           TestRng.state CountingRng.state
           TestRng.next_double TestRng.next_gauss
           CountingRng.next_double CountingRng.next_gauss
           (fun s t => s = fst t)).
  - intros s t H. subst s. split; reflexivity.
  - intros s t H. subst s. split; reflexivity.
  - reflexivity.
Defined.

(** * Further properties of the estimator *)

(** ** Shapes *)

Lemma broadcast_stretch_left (f : num -> num -> num) (u : num) (b : ndarray) :
  exists c, broadcast f [u] b = Ok c.
Proof.
  unfold broadcast. destruct (Nat.eqb (length [u]) (length b)); eauto.
Qed.

Lemma broadcast_stretch_right (f : num -> num -> num) (a : ndarray) (v : num) :
  exists c, broadcast f a [v] = Ok c.
Proof.
  unfold broadcast. destruct (Nat.eqb (length a) (length [v])); [eauto|].
  destruct a as [|u [|u' a]]; eauto.
Qed.

Lemma broadcast_mismatch (f : num -> num -> num) (a b : ndarray) :
  length a <> length b -> length a <> 1%nat -> length b <> 1%nat ->
  broadcast f a b = Raise (ValueError "operands could not be broadcast together").
Proof.
  intros Hab Ha Hb. unfold broadcast.
  destruct (Nat.eqb_spec (length a) (length b)); [contradiction|].
  destruct a as [|u [|u' a]]; destruct b as [|v [|v' b]]; simpl in *;
    try reflexivity; congruence.
Qed.

(** X1.  The estimator accepts exactly the pairs of arrays whose shapes can be
    broadcast together (equal lengths, or one of the two of length 1);
    on every other pair it raises the shape error of the elementwise
    product and returns nothing. *)
Theorem simple_linear_regression_shape_error (x y : ndarray) :
  (length x = length y \/ length x = 1%nat \/ length y = 1%nat ->
     exists beta_0 beta_1, simple_linear_regression x y = Ok (beta_0, beta_1))
  /\ (length x <> length y -> length x <> 1%nat -> length y <> 1%nat ->
        simple_linear_regression x y
        = Raise (ValueError "operands could not be broadcast together")).
Proof.
  split.
  - intros [H|[H|H]].
    + now apply simple_linear_regression_same_length.
    + unfold simple_linear_regression.
      destruct x as [|u [|u' x]]; try discriminate. simpl sub_scalar at 1.
      destruct (broadcast_stretch_left vmul (vsub u (np_mean [u]))
                  (sub_scalar y (np_mean y))) as [c Hc].
      rewrite Hc. eauto.
    + unfold simple_linear_regression.
      destruct y as [|v [|v' y]]; try discriminate. simpl sub_scalar at 2.
      destruct (broadcast_stretch_right vmul (sub_scalar x (np_mean x))
                  (vsub v (np_mean [v]))) as [c Hc].
      rewrite Hc. eauto.
  - intros Hxy Hx Hy. unfold simple_linear_regression.
    rewrite broadcast_mismatch by (rewrite ?length_sub_scalar; assumption).
    reflexivity.
Qed.

Lemma simple_linear_regression_shape_error_witness :
  (exists beta_0 beta_1,
     simple_linear_regression (lift [1; 2; 3]) (lift [5]) = Ok (beta_0, beta_1))
  /\ simple_linear_regression (lift [1; 2; 3]) (lift [5; 6])
     = Raise (ValueError "operands could not be broadcast together").
Proof.
  split.
  - apply (proj1 (simple_linear_regression_shape_error (lift [1; 2; 3]) (lift [5]))).
    right; right; reflexivity.
  - apply (proj2 (simple_linear_regression_shape_error (lift [1; 2; 3]) (lift [5; 6])));
      simpl; lia.
Defined.

(** ** Non-finite values in the sample *)

Lemma vadd_nonfinite_r (a : num) : vadd a NonFinite = NonFinite.
Proof. destruct a; reflexivity. Qed.

Lemma vsub_nonfinite_r (a : num) : vsub a NonFinite = NonFinite.
Proof. destruct a; reflexivity. Qed.

Lemma vmul_nonfinite_r (a : num) : vmul a NonFinite = NonFinite.
Proof. destruct a; reflexivity. Qed.

Lemma vdiv_nonfinite_r (a : num) : vdiv a NonFinite = NonFinite.
Proof. destruct a; reflexivity. Qed.

Lemma fold_vadd_nonfinite (l : ndarray) : fold_left vadd l NonFinite = NonFinite.
Proof. induction l as [|v l IH]; simpl; auto. Qed.

Lemma fold_vadd_In_nonfinite (l : ndarray) (acc : num) :
  In NonFinite l -> fold_left vadd l acc = NonFinite.
Proof.
  revert acc; induction l as [|v l IH]; intros acc H; simpl in *; [tauto|].
  destruct H as [H|H].
  - subst v. rewrite vadd_nonfinite_r. apply fold_vadd_nonfinite.
  - now apply IH.
Qed.

Lemma np_sum_In_nonfinite (l : ndarray) : In NonFinite l -> np_sum l = NonFinite.
Proof. apply fold_vadd_In_nonfinite. Qed.

Lemma square_In_nonfinite (l : ndarray) :
  In NonFinite l -> In NonFinite (square l).
Proof.
  intros H. unfold square.
  change NonFinite with ((fun e => vmul e e) NonFinite). now apply in_map.
Qed.

Lemma sub_scalar_In_nonfinite (l : ndarray) (m : num) :
  In NonFinite l -> In NonFinite (sub_scalar l m).
Proof.
  intros H. unfold sub_scalar.
  change NonFinite with ((fun e => vsub e m) NonFinite). now apply in_map.
Qed.

Lemma sub_scalar_nonfinite (l : ndarray) :
  sub_scalar l NonFinite = map (fun _ => NonFinite) l.
Proof.
  unfold sub_scalar. apply map_ext. intros e. apply vsub_nonfinite_r.
Qed.

Lemma broadcast_vmul_nonfinite (a : ndarray) (b : list num) (c : ndarray) :
  b <> [] ->
  broadcast vmul a (map (fun _ => NonFinite) b) = Ok c ->
  (a = [] /\ c = []) \/ In NonFinite c.
Proof.
  intros Hb. unfold broadcast. rewrite length_map.
  destruct (Nat.eqb_spec (length a) (length b)) as [E|E].
  - intros H. injection H as <-. right.
    destruct a as [|u a], b as [|v b]; simpl in *; try congruence.
    left. apply vmul_nonfinite_r.
  - destruct a as [|u [|u' a]].
    + destruct b as [|v [|v' b]]; simpl; try congruence.
      intros H. injection H as <-. left. split; reflexivity.
    + intros H. injection H as <-. right.
      destruct b as [|v b]; [congruence|]. simpl. left.
      apply vmul_nonfinite_r.
    + destruct b as [|v [|v' b]]; simpl; try congruence.
      intros H. injection H as <-. right. left. apply vmul_nonfinite_r.
Qed.

(** X8.  A sample that contains a non-finite value (nan or an infinity) never
    yields a finite coefficient: the estimator either raises on the
    shapes or returns two non-finite coefficients. *)
Theorem simple_linear_regression_nonfinite_input (x y : ndarray) :
  In NonFinite x \/ In NonFinite y ->
  simple_linear_regression x y = Ok (NonFinite, NonFinite)
  \/ exists e, simple_linear_regression x y = Raise e.
Proof.
  intros H. unfold simple_linear_regression.
  destruct (broadcast vmul (sub_scalar x (np_mean x)) (sub_scalar y (np_mean y)))
    as [prod|e] eqn:Eb; [left|right; eauto].
  destruct H as [Hx|Hy].
  - rewrite (np_sum_In_nonfinite (square (sub_scalar x (np_mean x))))
      by (apply square_In_nonfinite, sub_scalar_In_nonfinite, Hx).
    rewrite vdiv_nonfinite_r. simpl vmul. rewrite vsub_nonfinite_r.
    reflexivity.
  - assert (Hm : np_mean y = NonFinite).
    { unfold np_mean. now rewrite (np_sum_In_nonfinite y Hy). }
    rewrite Hm in *. rewrite sub_scalar_nonfinite in Eb.
    assert (Hne : y <> []) by (destruct y; simpl in Hy; [tauto|congruence]).
    destruct (broadcast_vmul_nonfinite _ y prod Hne Eb) as [[Ha Hc]|Hin].
    + subst prod. rewrite Ha. reflexivity.
    + rewrite (np_sum_In_nonfinite prod Hin). reflexivity.
Qed.

Lemma simple_linear_regression_nonfinite_input_witness :
  simple_linear_regression [Finite 1; Finite 2; Finite 4] [Finite 3; NonFinite; Finite 2]
  = Ok (NonFinite, NonFinite)
  \/ exists e,
       simple_linear_regression [Finite 1; Finite 2; Finite 4]
         [Finite 3; NonFinite; Finite 2]
       = Raise e.
Proof.
  apply (simple_linear_regression_nonfinite_input
           [Finite 1; Finite 2; Finite 4] [Finite 3; NonFinite; Finite 2]).
  right. simpl. tauto.
Defined.

(** * Further properties of the generator and of the driver *)

Section SimulationFurther.

Variable rng : Type.
Variable next_double : rng -> Q * rng.
Variable next_gauss : rng -> Q * rng.

Local Abbreviation uniform := (np_random_uniform rng next_double).
Local Abbreviation normal := (np_random_normal rng next_gauss).
Local Abbreviation generate := (generate_data rng next_double next_gauss).
Local Abbreviation loop := (trials rng next_double next_gauss).
Local Abbreviation run := (monte_carlo_simulation rng next_double next_gauss).
Local Abbreviation state_at := (state_after rng next_double next_gauss).

(** ** Outcomes of the generator *)

Lemma normal_negative_scale loc scale n s :
  scale < 0 -> normal loc scale n s = (Raise (ValueError "scale < 0"), s).
Proof.
  intros Hs. unfold np_random_normal.
  destruct (Qle_bool 0 scale) eqn:E; [|reflexivity].
  apply Qle_bool_iff in E. lra.
Qed.

Lemma generate_data_negative_scale n beta_0 beta_1 noise_std s :
  (0 <= n)%Z -> noise_std < 0 ->
  generate n beta_0 beta_1 noise_std s
  = (Raise (ValueError "scale < 0"), snd (uniform 0 10 n s)).
Proof.
  intros Hn Hs. unfold generate_data, bind.
  rewrite (uniform_ok rng next_double 0 10 n s Hn).
  cbv iota beta. rewrite normal_negative_scale by exact Hs. reflexivity.
Qed.

Lemma generate_data_lengths n beta_0 beta_1 noise_std s :
  (0 <= n)%Z -> 0 <= noise_std ->
  exists xs ys s',
    generate n beta_0 beta_1 noise_std s = (Ok (lift xs, lift ys), s')
    /\ xs = drawn next_double (fun u => 0 + (10 - 0) * u) (Z.to_nat n) s
    /\ length xs = Z.to_nat n /\ length ys = Z.to_nat n.
Proof.
  intros Hn Hs.
  pose proof (generate_data_ok rng next_double next_gauss n beta_0 beta_1
                noise_std s Hn Hs) as Hg.
  cbv zeta in Hg. do 3 eexists. split; [exact Hg|].
  split; [reflexivity|]. split.
  - apply length_drawn.
  - rewrite length_line_plus_noise; rewrite !length_drawn; reflexivity.
Qed.

Lemma draws_advance (prim : rng -> Q * rng) f size s :
  snd (draws rng prim f size s) = advance prim size s.
Proof.
  revert s; induction size as [|k IH]; intros s; simpl; [reflexivity|].
  destruct (prim s) as [u s1]; simpl.
  specialize (IH s1). destruct (draws rng prim f k s1) as [rest s2].
  exact IH.
Qed.

Lemma uniform_advance low high n s :
  (0 <= n)%Z -> snd (uniform low high n s) = advance next_double (Z.to_nat n) s.
Proof.
  intros Hn. unfold np_random_uniform.
  destruct (Z.ltb_spec n 0); [lia|].
  pose proof (draws_advance next_double (fun u => low + (high - low) * u)
                (Z.to_nat n) s) as Hd.
  destruct (draws rng next_double _ (Z.to_nat n) s) as [a s1]. exact Hd.
Qed.

Lemma normal_advance loc scale n s :
  (0 <= n)%Z -> 0 <= scale ->
  snd (normal loc scale n s) = advance next_gauss (Z.to_nat n) s.
Proof.
  intros Hn Hs. unfold np_random_normal.
  apply Qle_bool_iff in Hs. rewrite Hs. simpl negb. cbv iota.
  destruct (Z.ltb_spec n 0); [lia|].
  pose proof (draws_advance next_gauss (fun g => loc + scale * g)
                (Z.to_nat n) s) as Hd.
  destruct (draws rng next_gauss _ (Z.to_nat n) s) as [a s1]. exact Hd.
Qed.

Lemma generate_data_advance n beta_0 beta_1 noise_std s :
  (0 <= n)%Z -> 0 <= noise_std ->
  snd (generate n beta_0 beta_1 noise_std s)
  = advance next_gauss (Z.to_nat n) (advance next_double (Z.to_nat n) s).
Proof.
  intros Hn Hs.
  rewrite (generate_data_ok rng next_double next_gauss n beta_0 beta_1
             noise_std s Hn Hs).
  cbv zeta. simpl snd at 1.
  rewrite normal_advance, uniform_advance by assumption. reflexivity.
Qed.


Lemma drawn_Forall_range (prim : rng -> Q * rng) (f : Q -> Q) (size : nat)
    (s : rng) (Pre P : Q -> Prop) :
  (forall t, Pre (fst (prim t))) ->
  (forall u, Pre u -> P (f u)) ->
  Forall P (drawn prim f size s).
Proof.
  intros Hpre HP. revert s; induction size as [|k IH]; intros s; simpl;
    constructor; auto.
Qed.

Lemma generate_data_inv n beta_0 beta_1 noise_std s x y s' :
  generate n beta_0 beta_1 noise_std s = (Ok (x, y), s') ->
  (0 <= n)%Z /\ 0 <= noise_std.
Proof.
  intros Hg. destruct (Z.ltb_spec n 0) as [Hneg|Hn].
  - rewrite (generate_data_negative rng next_double next_gauss) in Hg
      by exact Hneg. discriminate.
  - split; [exact Hn|].
    destruct (Qlt_le_dec noise_std 0) as [Hs|Hs]; [|exact Hs].
    rewrite generate_data_negative_scale in Hg by assumption. discriminate.
Qed.

(** X10.  With a uniform primitive that stays in [0, 1), every [x] value the
    generator returns is a finite number in [0, 10). *)
Theorem generate_data_x_range
    (n : Z) (beta_0 beta_1 noise_std : Q) (s s' : rng) (x y : ndarray) :
  (forall t, 0 <= fst (next_double t) /\ fst (next_double t) < 1) ->
  generate n beta_0 beta_1 noise_std s = (Ok (x, y), s') ->
  Forall (fun v => exists q, v = Finite q /\ 0 <= q /\ q < 10) x.
Proof.
  intros Hrange Hg.
  destruct (generate_data_inv _ _ _ _ _ _ _ _ Hg) as [Hn Hs].
  destruct (generate_data_lengths n beta_0 beta_1 noise_std s Hn Hs)
    as (xs & ys & s1 & Hg' & Hxs & _).
  rewrite Hg' in Hg. injection Hg as Hx _ _. subst x.
  unfold lift. apply Forall_map. subst xs.
  apply (drawn_Forall_range next_double _ _ _
           (fun u => 0 <= u /\ u < 1)); [exact Hrange|].
  intros u [H0 H1]. eexists. split; [reflexivity|]. split; lra.
Qed.

(** ** Outcomes of the driver *)

Lemma trials_lengths n beta_0 beta_1 noise_std count :
  forall acc0 acc1 s l0 l1 s',
    loop count n beta_0 beta_1 noise_std acc0 acc1 s = (Ok (l0, l1), s') ->
    length l0 = (length acc0 + count)%nat /\ length l1 = (length acc1 + count)%nat.
Proof.
  induction count as [|count IH]; intros acc0 acc1 s l0 l1 s' H.
  - simpl in H. unfold ret in H. injection H as <- <- _. lia.
  - simpl in H. unfold bind at 1 in H.
    destruct (generate n beta_0 beta_1 noise_std s) as [[[x y]|e] s1];
      [|discriminate].
    unfold bind, of_result in H.
    destruct (simple_linear_regression x y) as [[b0h b1h]|e]; [|discriminate].
    apply IH in H. rewrite !length_app in H. simpl in H. lia.
Qed.


(** ** Batches *)

Lemma trials_accumulate n beta_0 beta_1 noise_std count :
  forall acc0 acc1 s,
    loop count n beta_0 beta_1 noise_std acc0 acc1 s
    = match loop count n beta_0 beta_1 noise_std [] [] s with
      | (Ok (est0, est1), s') => (Ok (acc0 ++ est0, acc1 ++ est1), s')
      | (Raise e, s') => (Raise e, s')
      end.
Proof.
  induction count as [|count IH]; intros acc0 acc1 s.
  - simpl. unfold ret. now rewrite !app_nil_r.
  - simpl. unfold bind at 1 3.
    destruct (generate n beta_0 beta_1 noise_std s) as [[[x y]|e] s1];
      [|reflexivity].
    unfold bind, of_result.
    destruct (simple_linear_regression x y) as [[b0h b1h]|e]; [|reflexivity].
    rewrite (IH (acc0 ++ [b0h]) (acc1 ++ [b1h])), (IH ([] ++ [b0h]) ([] ++ [b1h])).
    destruct (loop count n beta_0 beta_1 noise_std [] [] s1)
      as [[[est0 est1]|e] s2]; [|reflexivity].
    now rewrite <- !app_assoc.
Qed.

Lemma trials_add n beta_0 beta_1 noise_std count1 count2 :
  forall acc0 acc1 s,
    loop (count1 + count2) n beta_0 beta_1 noise_std acc0 acc1 s
    = match loop count1 n beta_0 beta_1 noise_std acc0 acc1 s with
      | (Ok (est0, est1), s') => loop count2 n beta_0 beta_1 noise_std est0 est1 s'
      | (Raise e, s') => (Raise e, s')
      end.
Proof.
  induction count1 as [|count1 IH]; intros acc0 acc1 s.
  - reflexivity.
  - simpl. unfold bind at 1 3.
    destruct (generate n beta_0 beta_1 noise_std s) as [[[x y]|e] s1];
      [|reflexivity].
    unfold bind, of_result.
    destruct (simple_linear_regression x y) as [[b0h b1h]|e]; [|reflexivity].
    apply IH.
Qed.

(** X12.  A run of [k1 + k2] trials is a run of [k1] trials followed by a run
    of [k2] trials that starts from the generator state the first one
    left, with the estimates of the two runs concatenated; if either
    batch raises, so does the whole run, with the same error and state. *)
Theorem monte_carlo_simulation_batches
    (k1 k2 n : Z) (beta_0 beta_1 noise_std : Q) (s : rng) :
  (0 <= k1)%Z -> (0 <= k2)%Z ->
  run (k1 + k2) n beta_0 beta_1 noise_std s
  = match run k1 n beta_0 beta_1 noise_std s with
    | (Ok (first_0, first_1), s1) =>
        match run k2 n beta_0 beta_1 noise_std s1 with
        | (Ok (second_0, second_1), s2) =>
            (Ok (first_0 ++ second_0, first_1 ++ second_1), s2)
        | (Raise e, s2) => (Raise e, s2)
        end
    | (Raise e, s1) => (Raise e, s1)
    end.
Proof.
  intros H1 H2. unfold monte_carlo_simulation.
  rewrite Z2Nat.inj_add by assumption. rewrite trials_add.
  destruct (loop (Z.to_nat k1) n beta_0 beta_1 noise_std [] [] s)
    as [[[first_0 first_1]|e] s1]; [|reflexivity].
  apply trials_accumulate.
Qed.

(** ** Position in the random stream *)

Lemma state_after_advance n beta_0 beta_1 noise_std count :
  (0 <= n)%Z -> 0 <= noise_std ->
  forall s,
    state_at count n beta_0 beta_1 noise_std s
    = Nat.iter count
        (fun t => advance next_gauss (Z.to_nat n)
                    (advance next_double (Z.to_nat n) t)) s.
Proof.
  intros Hn Hs. induction count as [|count IH]; intros s; [reflexivity|].
  rewrite Nat.iter_succ_r. simpl state_after.
  rewrite generate_data_advance by assumption. apply IH.
Qed.

(** X13.  A successful run leaves the generator where [n] uniform draws
    followed by [n] normal draws, repeated once per trial, lead from the
    initial state: the position in the random stream depends on the two
    counts only, never on the model parameters. *)
Theorem monte_carlo_simulation_stream_position
    (num_simulations n : Z) (beta_0 beta_1 noise_std : Q) (s : rng) :
  (0 <= n)%Z ->
  0 <= noise_std ->
  snd (run num_simulations n beta_0 beta_1 noise_std s)
  = Nat.iter (Z.to_nat num_simulations)
      (fun t => advance next_gauss (Z.to_nat n)
                  (advance next_double (Z.to_nat n) t)) s.
Proof.
  intros Hn Hs. unfold monte_carlo_simulation.
  destruct (trials_ok rng next_double next_gauss n beta_0 beta_1 noise_std
              Hn Hs (Z.to_nat num_simulations) [] [] s)
    as (est0 & est1 & Hrun & _).
  rewrite Hrun. simpl snd. now apply state_after_advance.
Qed.

End SimulationFurther.

(** ** Runs on the concrete generator *)

Lemma TestRng_next_double_range (t : TestRng.state) :
  0 <= fst (TestRng.next_double t) /\ fst (TestRng.next_double t) < 1.
Proof.
  unfold TestRng.next_double, Qle, Qlt. simpl.
  pose proof (Z.mod_pos_bound t 1000). lia.
Qed.


Lemma generate_data_x_range_witness :
  Forall (fun v => exists q, v = Finite q /\ 0 <= q /\ q < 10)
    (lift [420 # 1000; 2240 # 1000; 2630 # 1000]).
Proof.
  apply (generate_data_x_range TestRng.state TestRng.next_double
           TestRng.next_gauss 3 2 3 0 42%Z 9333%Z
           (lift [420 # 1000; 2240 # 1000; 2630 # 1000])
           (lift [6520 # 2000; 17440 # 2000; 19780 # 2000])).
  - exact TestRng_next_double_range.
  - vm_compute. reflexivity.
Defined.


Lemma monte_carlo_simulation_batches_witness :
  TestRng.run (1 + 2) 3 2 3 1 42%Z
  = match TestRng.run 1 3 2 3 1 42%Z with
    | (Ok (first_0, first_1), s1) =>
        match TestRng.run 2 3 2 3 1 s1 with
        | (Ok (second_0, second_1), s2) =>
            (Ok (first_0 ++ second_0, first_1 ++ second_1), s2)
        | (Raise e, s2) => (Raise e, s2)
        end
    | (Raise e, s1) => (Raise e, s1)
    end.
Proof.
  apply (monte_carlo_simulation_batches TestRng.state TestRng.next_double
           TestRng.next_gauss 1 2 3 2 3 1 42%Z); lia.
Defined.

Lemma monte_carlo_simulation_stream_position_witness :
  snd (TestRng.run 2 3 2 3 1 42%Z)
  = Nat.iter (Z.to_nat 2)
      (fun t => advance TestRng.next_gauss (Z.to_nat 3)
                  (advance TestRng.next_double (Z.to_nat 3) t)) 42%Z.
Proof.
  apply (monte_carlo_simulation_stream_position TestRng.state TestRng.next_double
           TestRng.next_gauss 2 3 2 3 1 42%Z).
  - lia.
  - unfold Qle; simpl; lia.
Defined.

(** * Properties of the program in binary64 *)

(** ** Summation *)

Lemma pairwise_sum_unfold (depth : nat) (a : Binary64.ndarray) :
  Binary64.pairwise_sum depth a
  = if Nat.leb (length a) 128 then Some (Binary64.sum_block a)
    else match depth with
         | O => None
         | S depth' =>
             let n2 := (length a / 2 - (length a / 2) mod 8)%nat in
             match Binary64.pairwise_sum depth' (firstn n2 a),
                   Binary64.pairwise_sum depth' (skipn n2 a) with
             | Some u, Some v => Some (Binary64.fadd u v)
             | _, _ => None
             end
         end.
Proof. destruct depth; reflexivity. Qed.

(** The bound on the nested splits is never reached. *)
Lemma pairwise_sum_depth (depth : nat) :
  forall a : Binary64.ndarray,
    (length a <= 128 + depth)%nat ->
    exists v, Binary64.pairwise_sum depth a = Some v.
Proof.
  induction depth as [|depth IH]; intros a Hlen; rewrite pairwise_sum_unfold.
  - destruct (Nat.leb_spec (length a) 128); [eauto|lia].
  - destruct (Nat.leb_spec (length a) 128) as [Hs|Hl]; [eauto|].
    cbv zeta.
    set (n := length a) in *.
    assert (Hhalf : (64 <= n / 2 /\ n / 2 <= n - 1)%nat).
    { split.
      - apply Nat.div_le_lower_bound; lia.
      - apply Nat.Div0.div_le_upper_bound; lia. }
    assert (Hmod : ((n / 2) mod 8 < 8)%nat) by (apply Nat.mod_upper_bound; lia).
    set (n2 := (n / 2 - (n / 2) mod 8)%nat) in *.
    assert (Hn2 : (57 <= n2 /\ n2 <= n - 1)%nat) by (unfold n2; lia).
    destruct (IH (firstn n2 a)) as [u Hu].
    { rewrite length_firstn. fold n. lia. }
    destruct (IH (skipn n2 a)) as [v Hv].
    { rewrite length_skipn. fold n. lia. }
    rewrite Hu, Hv. eauto.
Qed.

Lemma np_sum_defined (a : Binary64.ndarray) :
  exists v, Binary64.pairwise_sum (length a) a = Some v
            /\ Binary64.np_sum a = Binary64.fadd Binary64.zero v.
Proof.
  destruct (pairwise_sum_depth (length a) a) as [v Hv]; [lia|].
  exists v. split; [exact Hv|]. unfold Binary64.np_sum. now rewrite Hv.
Qed.

(** ** The estimator against the specification's formulas *)








(** On [x = [1, 2, 3]], [y = [2, 4, 6]] every operation of the fit is
    exact in binary64 and the result is 0.0 and 2.0. *)
Example binary64_regression_1_2_3 :
  Binary64.simple_linear_regression
    (Binary64.lits [1; 2; 3]%float) (Binary64.lits [2; 4; 6]%float)
  = Ok (Binary64.lit 0%float, Binary64.lit 2%float).
Proof. vm_compute. reflexivity. Qed.

(** ** The denominator and the missing guard *)






(** ** Shifting the responses *)




(** ** Zero noise *)

Section Binary64Generator.

Variable rng : Type.
Variable next_double : rng -> Binary64.float64 * rng.
Variable next_gauss : rng -> Binary64.float64 * rng.

Local Abbreviation uniform64 := (Binary64.np_random_uniform rng next_double).
Local Abbreviation normal64 := (Binary64.np_random_normal rng next_gauss).
Local Abbreviation generate64 := (Binary64.generate_data rng next_double next_gauss).







End Binary64Generator.



(** The scenario of one trial on two points without noise, for the line
    [0 + 1 * x] and the uniform draws 0.25 and 0.75: here every
    operation of the fit is exact and the estimates are 0 and 1. *)
Example zero_noise_two_points :
  Binary64.generate_data (list Binary64.float64) Binary64.replay Binary64.replay
    2 (Binary64.lit 0%float) (Binary64.lit 1%float) Binary64.zero
    (Binary64.lits [0.25; 0.75; 1.5; -0.5]%float)
  = (Ok (Binary64.lits [2.5; 7.5]%float, Binary64.lits [2.5; 7.5]%float), [])
  /\ Binary64.simple_linear_regression
       (Binary64.lits [2.5; 7.5]%float) (Binary64.lits [2.5; 7.5]%float)
     = Ok (Binary64.lit 0%float, Binary64.lit 1%float).
Proof. split; vm_compute; reflexivity. Qed.
